(** * Thoughts Reframed backend: session store, retry engine and pipeline

    A shallow embedding of
    - [src/services/speechToTextService.js]  (the Whisper retry loop),
    - [src/services/sessionService.js]       (the session store),
    - [src/services/processingService.js]    (the pipeline orchestrator),
    - [src/routes/sessions.js]               (upload and trigger handlers),
    together with the properties of these that the specification states. *)

From stdpp Require Import gmap strings list sorting pretty.

Open Scope string_scope.
Open Scope Z_scope.

(** ** Shared vocabulary *)

(** A JavaScript call either returns a value or throws an [Error]; the
    thrown error is represented by its [message]. *)
Inductive outcome (A : Type) : Type :=
  | Ok (a : A)
  | Throw (msg : string).
Arguments Ok {A} a.
Arguments Throw {A} msg.

(** [hay.includes(needle)] *)
Fixpoint includes (needle hay : string) : bool :=
  String.prefix needle hay ||
  match hay with
  | EmptyString => false
  | String _ rest => includes needle rest
  end.

(** ** The Whisper retry loop ([transcribeWithWhisper]) *)

Module Whisper.

(** The fields of a caught error that the handler inspects.  [None] is
    [undefined]. *)
Record jsError : Type := JsError {
  message : option string;          (* error.message *)
  code : option string;             (* error.code *)
  cause_code : option string;       (* error.cause?.code *)
  inner_code : option string;       (* error.error?.code *)
  response_status : option Z;       (* error.response?.status *)
  status : option Z                 (* error.status *)
}.

(** What one pass through the [try] block does: it returns the
    transcription ([response.data]) or throws. *)
Inductive attemptResult : Type :=
  | Success (transcription : string)
  | Failure (e : jsError).

(** The configuration and the outside world of the service.  A path is
    [None] when the caller passes [undefined]. *)
Record env : Type := Env {
  useGoogleSTT : bool;              (* USE_GOOGLE_STT === 'true' *)
  openaiClient : bool;              (* openaiClient !== null *)
  googleCredentials : bool;         (* GOOGLE_APPLICATION_CREDENTIALS set *)
  statSync : option string -> option string; (* Some m: fs.statSync throws m *)
  request : option string -> nat -> attemptResult (* the try block of attempt n *)
}.

(** Observable steps of the loop, in order. *)
Inductive event : Type :=
  | Call (attempt : nat)
  | Wait (ms : Z).

(** JavaScript [a || b] on strings and numbers that may be undefined. *)
Definition orStr (a b : option string) : option string :=
  match a with
  | Some s => if String.eqb s "" then b else a
  | None => b
  end.

Definition orNum (a b : option Z) : option Z :=
  match a with
  | Some n => if n =? 0 then b else a
  | None => b
  end.

Definition errorMessage (e : jsError) : string :=
  match orStr (message e) (Some "Unknown error") with
  | Some s => s
  | None => "Unknown error"
  end.

Definition errorCode (e : jsError) : option string :=
  orStr (orStr (code e) (cause_code e)) (inner_code e).

Definition statusCode (e : jsError) : option Z :=
  orNum (response_status e) (status e).

Definition isRateLimit (e : jsError) : bool :=
  match statusCode e with
  | Some n => n =? 429
  | None => false
  end.

Definition codeIs (c : option string) (s : string) : bool :=
  match c with
  | Some c' => String.eqb c' s
  | None => false
  end.

Definition isConnectionError (e : jsError) : bool :=
  codeIs (errorCode e) "ECONNRESET" ||
  codeIs (errorCode e) "ETIMEDOUT" ||
  includes "Connection" (errorMessage e) ||
  includes "socket hang up" (errorMessage e) ||
  includes "timeout" (errorMessage e).

Definition maxRetries : nat := 3.

(** The statement after the loop. *)
Definition afterLoop (lastError : option jsError) : outcome string :=
  Throw ("Transcription failed after " +:+ pretty maxRetries +:+ " attempts: " +:+
         match lastError with
         | Some e => errorMessage e      (* lastError?.message || ... *)
         | None => "Unknown error"
         end).

(** [for (attempt = 1; attempt <= maxRetries; attempt++)].  [remaining]
    counts the iterations the loop condition still admits, that is
    [maxRetries + 1 - attempt]. *)
Fixpoint attemptLoop (req : nat -> attemptResult)
    (remaining attempt : nat) (lastError : option jsError)
    : outcome string * list event :=
  match remaining with
  | O => (afterLoop lastError, [])
  | S remaining' =>
      match req attempt with
      | Success transcription => (Ok transcription, [Call attempt])
      | Failure e =>
          if (attempt <? maxRetries)%nat && isRateLimit e then
            let waitTime := Z.min (Z.of_nat attempt * 10000) 60000 in
            let '(r, evs) := attemptLoop req remaining' (S attempt) (Some e) in
            (r, Call attempt :: Wait waitTime :: evs)
          else if (attempt <? maxRetries)%nat && isConnectionError e then
            let waitTime := Z.of_nat attempt * 3000 in
            let '(r, evs) := attemptLoop req remaining' (S attempt) (Some e) in
            (r, Call attempt :: Wait waitTime :: evs)
          else if (attempt =? maxRetries)%nat then
            if isRateLimit e then
              (Throw "Transcription failed: Rate limit exceeded. Please try again in a few minutes.",
               [Call attempt])
            else
              (Throw ("Transcription failed after " +:+ pretty maxRetries +:+
                      " attempts: " +:+ errorMessage e),
               [Call attempt])
          else
            (Throw ("Transcription failed: " +:+ errorMessage e), [Call attempt])
      end
  end.

(** The loop as it stands on entering the iteration [attempt]. *)
Definition loopFrom (req : nat -> attemptResult) (attempt : nat)
    (lastError : option jsError) : outcome string * list event :=
  attemptLoop req (maxRetries + 1 - attempt) attempt lastError.

Definition transcribeWithWhisper (E : env) (audioPath : option string)
    : outcome string * list event :=
  if negb (openaiClient E) then (Throw "OpenAI API key not configured", [])
  else
    match statSync E audioPath with
    | Some m => (Throw m, [])
    | None => loopFrom (request E audioPath) 1 None
    end.

Definition transcribeWithGoogle (E : env) (audioPath : option string) : outcome string :=
  if negb (googleCredentials E) then
    Throw "Google Cloud credentials not configured. Set GOOGLE_APPLICATION_CREDENTIALS environment variable."
  else
    Throw "Google Cloud Speech-to-Text not yet implemented. Please use OpenAI Whisper by setting USE_GOOGLE_STT=false".

Definition transcribeAudio (E : env) (audioPath : option string)
    : outcome string * list event :=
  if useGoogleSTT E then (transcribeWithGoogle E audioPath, [])
  else transcribeWithWhisper E audioPath.

(** The three classes of failure of the retry contract, in the order in
    which the handler tests them. *)
Inductive failureClass : Type := RateLimited | TransientConnection | OtherFailure.

Definition classify (e : jsError) : failureClass :=
  if isRateLimit e then RateLimited
  else if isConnectionError e then TransientConnection
  else OtherFailure.

(** The calls among the events. *)
Definition calls (evs : list event) : list nat :=
  omap (fun ev => match ev with Call n => Some n | Wait _ => None end) evs.

Definition waits (evs : list event) : list Z :=
  omap (fun ev => match ev with Wait ms => Some ms | Call _ => None end) evs.

End Whisper.

(** ** JSON values and the world of the services *)

(** An uploaded-file descriptor, as the upload handler builds it. *)
Record audioFile : Type := AudioFile {
  filename : string;
  originalName : string;
  path : string;
  size : Z;
  mimetype : string;
  uploadedAt : Z
}.

(** The values that occur as fields of a session record.  [VIso ms] is the
    string [new Date(ms).toISOString()]; [new Date(...)] of it gives [ms]
    back.  Every value here survives [JSON.parse (JSON.stringify v)]
    unchanged, so a file is modelled by the record it holds. *)
Inductive value : Type :=
  | VNull
  | VStr (s : string)
  | VIso (ms : Z)
  | VFiles (l : list audioFile).

(** A JavaScript object: the fields that are present, by name. *)
Abbreviation obj := (gmap string value).

(** What the orchestrator returns on success. *)
Record pipelineResult : Type := PipelineResult {
  r_transcript : string;
  r_reframedText : string;
  r_generatedAudioUrl : value
}.

(** What the services do that can be seen from outside, in the order in
    which it happens: a session is created, a session is updated (with
    the fields given and the record written), a stage adapter is called. *)
Inductive event : Type :=
  | ECreate (sessionId : string) (record : obj)
  | EUpdate (sessionId : string) (updates : obj) (record : obj)
  | ETranscribe (audioPath : option string)
  | EReframe (text : string)
  | ESynthesize (text : string) (sessionId : string) (userId : option value).

(** The sessions directory (file [<id>.json] under key [id]), the number
    of clock readings and of identifiers drawn so far, and the effects so
    far. *)
Record world : Type := World {
  files : gmap string obj;
  ticks : nat;
  draws : nat;
  log : list event
}.

(** Everything the services get from outside: the system clock (the n-th
    reading of [new Date()], in milliseconds), the identifier generator,
    [Date] parsing of strings other than [VIso], and the three stage
    adapters.  [reframeText] lives in a file that is not part of these
    sources, and the adapters are external services either way; an adapter
    answers with its result or with the message of the error it throws. *)
Record env : Type := Env {
  clock : nat -> Z;
  uuidv4 : nat -> string;
  dateParse : string -> option Z;
  transcribeAudio : option string -> outcome string;
  reframeText : string -> outcome string;
  generateAudio : string -> string -> option value -> outcome string
}.

(** ** A state-and-exception monad for the asynchronous functions *)

Definition M (A : Type) : Type := world -> outcome A * world.

#[export] Instance M_ret : MRet M := fun A a w => (Ok a, w).

#[export] Instance M_bind : MBind M := fun A B f m w =>
  match m w with
  | (Ok a, w') => f a w'
  | (Throw msg, w') => (Throw msg, w')
  end.

Definition throw {A : Type} (msg : string) : M A := fun w => (Throw msg, w).

(** [try { body } catch (error) { handler(error.message) }] *)
Definition tryCatch {A : Type} (body : M A) (handler : string -> M A) : M A :=
  fun w =>
    match body w with
    | (Ok a, w') => (Ok a, w')
    | (Throw msg, w') => handler msg w'
    end.

Definition lift {A : Type} (o : outcome A) : M A := fun w => (o, w).

(** Recording an event; the record is not part of the program. *)
Definition emit (ev : event) : M unit := fun w =>
  (Ok tt, World (files w) (ticks w) (draws w) (log w ++ [ev])).

Section Services.

Variable E : env.

(** [new Date()] *)
Definition now : M Z := fun w =>
  (Ok (clock E (ticks w)), World (files w) (S (ticks w)) (draws w) (log w)).

Definition newId : M string := fun w =>
  (Ok (uuidv4 E (draws w)), World (files w) (ticks w) (S (draws w)) (log w)).

(** [fs.existsSync] and [fs.readFileSync] followed by [JSON.parse] *)
Definition readSessionFile (sessionId : string) : M (option obj) := fun w =>
  (Ok (files w !! sessionId), w).

(** [fs.writeFileSync (path, JSON.stringify (record))] *)
Definition writeSessionFile (sessionId : string) (record : obj) : M unit := fun w =>
  (Ok tt, World (<[sessionId := record]> (files w)) (ticks w) (draws w) (log w)).

(** *** [sessionService.js] *)

Definition createSession (userId : string) : M obj :=
  sessionId ← newId;
  createdAt ← now;
  let session : obj :=
    <["id" := VStr sessionId]> (
    <["userId" := VStr userId]> (
    <["createdAt" := VIso createdAt]> (
    <["status" := VStr "created"]> (
    <["audioFiles" := VFiles []]> (
    <["transcript" := VNull]> (
    <["reframedText" := VNull]> (
    <["generatedAudioUrl" := VNull]> (
    <["error" := VNull]> ∅)))))))) in
  writeSessionFile sessionId session;;
  emit (ECreate sessionId session);;
  mret session.

Definition getSession (sessionId : string) : M (option obj) :=
  readSessionFile sessionId.

(** [{ ...session, ...updates, updatedAt: ... }]: a field of [updates]
    wins over the stored one, and [updatedAt] over both. *)
Definition merged (session updates : obj) (t : Z) : obj :=
  <["updatedAt" := VIso t]> (updates ∪ session).

Definition updateSession (sessionId : string) (updates : obj) : M obj :=
  session ← getSession sessionId;
  match session with
  | None => throw "Session not found"
  | Some session =>
      t ← now;
      let updatedSession := merged session updates t in
      writeSessionFile sessionId updatedSession;;
      emit (EUpdate sessionId updates updatedSession);;
      mret updatedSession
  end.

(** [new Date (v)] as milliseconds; [None] is an invalid date. *)
Definition dateOf (v : option value) : option Z :=
  match v with
  | Some (VIso ms) => Some ms
  | Some VNull => Some 0
  | Some (VStr s) => dateParse E s
  | Some (VFiles _) => None
  | None => None
  end.

(** [(a, b) => new Date(b.createdAt) - new Date(a.createdAt)]; a [NaN]
    result counts as [+0] for [sort]. *)
Definition byCreatedDesc (a b : obj) : Z :=
  match dateOf (b !! "createdAt"), dateOf (a !! "createdAt") with
  | Some tb, Some ta => tb - ta
  | _, _ => 0
  end.

(** [Array.prototype.sort] is stable: an element moves behind another
    only if the comparator is positive on them. *)
Fixpoint insertBy {A : Type} (cmp : A -> A -> Z) (x : A) (l : list A) : list A :=
  match l with
  | [] => [x]
  | y :: l' => if 0 <? cmp x y then y :: insertBy cmp x l' else x :: y :: l'
  end.

Definition sortBy {A : Type} (cmp : A -> A -> Z) (l : list A) : list A :=
  foldr (insertBy cmp) [] l.

(** [session.userId === userId] *)
Definition ownedBy (userId : string) (session : obj) : bool :=
  match session !! "userId" with
  | Some (VStr u) => String.eqb u userId
  | _ => false
  end.

(** [fs.readdirSync]: the session files in the order the directory
    gives them. *)
Definition readdirSync (w : world) : list (string * obj) := map_to_list (files w).

(** The loop over the directory keeps the records of [userId]; every file
    of the store is a [<id>.json], so the test on the extension holds for
    each, and the directory exists, as the module creates it on loading. *)
Definition getUserSessions (userId : string) : M (list obj) := fun w =>
  let sessions := filter (fun s => ownedBy userId s = true) (readdirSync w).*2 in
  (Ok (sortBy byCreatedDesc sessions), w).

(** *** [processingService.js] *)

Definition callTranscribe (audioPath : option string) : M string :=
  emit (ETranscribe audioPath);; lift (transcribeAudio E audioPath).

Definition callReframe (text : string) : M string :=
  emit (EReframe text);; lift (reframeText E text).

Definition callGenerate (text sessionId : string) (userId : option value) : M string :=
  emit (ESynthesize text sessionId userId);; lift (generateAudio E text sessionId userId).

(** [!session.audioFiles || session.audioFiles.length === 0].  An array
    is truthy also when empty, and a string has a length too. *)
Definition noAudioFiles (session : obj) : bool :=
  match session !! "audioFiles" with
  | Some (VFiles l) => bool_decide (l = [])
  | Some (VStr str) => String.eqb str ""
  | Some (VIso _) => false
  | Some VNull | None => true
  end.

(** [session.audioFiles[session.audioFiles.length - 1].path]; [None] is
    [undefined] (the last character of a string has no [path]). *)
Definition lastPath (session : obj) : option string :=
  match session !! "audioFiles" with
  | Some (VFiles l) => path <$> last l
  | _ => None
  end.

Definition latestAudioPath (session : option obj) : M (option string) :=
  match session with
  | None => throw "Session or audio files not found"
  | Some s =>
      if noAudioFiles s then throw "Session or audio files not found"
      else mret (lastPath s)
  end.

Definition userIdOf (session : option obj) : option value :=
  match session with
  | Some s => s !! "userId"
  | None => None
  end.

Definition processAudioPipeline (sessionId : string) : M pipelineResult :=
  tryCatch
    (session ← getSession sessionId;
     audioPath ← latestAudioPath session;
     (* Step 1: Speech-to-Text *)
     updateSession sessionId {[ "status" := VStr "transcribing" ]};;
     transcript ← callTranscribe audioPath;
     updateSession sessionId
       (<["transcript" := VStr transcript]> {[ "status" := VStr "transcribed" ]});;
     (* Step 2: AI Reframing *)
     updateSession sessionId {[ "status" := VStr "reframing" ]};;
     reframedText ← callReframe transcript;
     updateSession sessionId
       (<["reframedText" := VStr reframedText]> {[ "status" := VStr "reframed" ]});;
     (* Step 3: Text-to-Speech, optional *)
     generatedAudioUrl ←
       tryCatch
         (updateSession sessionId {[ "status" := VStr "generating_audio" ]};;
          audioFilename ← callGenerate reframedText sessionId (userIdOf session);
          mret (VStr ("/uploads/" +:+ audioFilename)))
         (fun ttsError =>
            updateSession sessionId
              {[ "error" := VStr ("TTS unavailable: " +:+ ttsError +:+
                                  ". Transcript and reframe are ready.") ]};;
            mret VNull);
     (* Mark as completed even if TTS failed *)
     updateSession sessionId
       (<["generatedAudioUrl" := generatedAudioUrl]> {[ "status" := VStr "completed" ]});;
     mret (PipelineResult transcript reframedText generatedAudioUrl))
    (fun error =>
       updateSession sessionId
         (<["status" := VStr "error"]> {[ "error" := VStr error ]});;
       throw error).

(** *** [routes/sessions.js] *)

(** [req.file], as multer leaves it. *)
Record multerFile : Type := MulterFile {
  f_filename : string;
  f_originalname : string;
  f_path : string;
  f_size : Z;
  f_mimetype : string
}.

Inductive response : Type :=
  | Json (status : Z) (body : obj)
  | JsonError (status : Z) (error : string)
  | Next (error : string).

(** [session.userId !== userId] *)
Definition notOwner (session : obj) (userId : string) : bool :=
  negb (ownedBy userId session).

(** POST /sessions *)
Definition postSession (userId : string) : M response :=
  tryCatch
    (session ← createSession userId; mret (Json 201 session))
    (fun error => mret (Next error)).

(** GET /sessions/:id *)
Definition getSessionRoute (sessionId userId : string) : M response :=
  tryCatch
    (session ← getSession sessionId;
     match session with
     | None => mret (JsonError 404 "Session not found")
     | Some s =>
         if notOwner s userId then mret (JsonError 403 "Access denied")
         else mret (Json 200 s)
     end)
    (fun error => mret (Next error)).

(** POST /sessions/:id/upload.  Removing the uploaded file from disk on
    the refusals touches no session and is left out. *)
Definition postUpload (sessionId userId : string) (file : option multerFile) : M response :=
  tryCatch
    (match file with
     | None => mret (JsonError 400 "No audio file provided")
     | Some f =>
         session ← getSession sessionId;
         match session with
         | None => mret (JsonError 404 "Session not found")
         | Some s =>
             if notOwner s userId then mret (JsonError 403 "Access denied")
             else
               (* const audioFiles = session.audioFiles || [] *)
               audioFiles ←
                 match s !! "audioFiles" with
                 | Some (VFiles l) => mret l
                 | Some (VStr str) =>
                     if String.eqb str "" then mret []
                     else throw "audioFiles.push is not a function"
                 | Some (VIso _) => throw "audioFiles.push is not a function"
                 | Some VNull | None => mret []
                 end;
               t ← now;
               let audioFiles :=
                 (audioFiles ++ [AudioFile (f_filename f) (f_originalname f) (f_path f)
                                           (f_size f) (f_mimetype f) t])%list in
               updateSession sessionId
                 (<["audioFiles" := VFiles audioFiles]>
                    {[ "status" := VStr "audio_uploaded" ]});;
               mret (Json 200
                 (<["message" := VStr "Audio file uploaded successfully"]> ∅))
         end
     end)
    (fun error => mret (Next error)).

(** POST /sessions/:id/process.  The handler starts the pipeline without
    awaiting it and answers at once; here the detached run is carried to
    its end before the answer is returned, with nothing interleaved. *)
Definition postProcess (sessionId userId : string) : M response :=
  tryCatch
    (session ← getSession sessionId;
     match session with
     | None => mret (JsonError 404 "Session not found")
     | Some s =>
         if notOwner s userId then mret (JsonError 403 "Access denied")
         else
           if noAudioFiles s then
             mret (JsonError 400 "No audio files uploaded for this session")
           else
             updateSession sessionId {[ "status" := VStr "processing" ]};;
             tryCatch
               (processAudioPipeline sessionId;; mret tt)
               (fun error =>
                  tryCatch
                    (updateSession sessionId
                       (<["status" := VStr "error"]> {[ "error" := VStr error ]});;
                     mret tt)
                    (fun _ => mret tt));;
             mret (Json 200
               (<["message" := VStr "Processing started"]> (
                <["sessionId" := VStr sessionId]> (
                {[ "status" := VStr "processing" ]}))))
     end)
    (fun error => mret (Next error)).

End Services.


(** ** Notions used to state the properties *)

(** The three [status] updates of the stages, the failure update of the
    outer [catch], the note of the inner [catch] and the final update. *)
Definition setStatus (st : string) : obj := {[ "status" := VStr st ]}.

Definition setResult (field : string) (v : value) (st : string) : obj :=
  <[field := v]> {[ "status" := VStr st ]}.

Definition setFailed (msg : string) : obj :=
  <["status" := VStr "error"]> {[ "error" := VStr msg ]}.

Definition ttsNote (msg : string) : obj :=
  {[ "error" := VStr ("TTS unavailable: " +:+ msg +:+ ". Transcript and reframe are ready.") ]}.

(** The record that [createSession] writes. *)
Definition initialRecord (sessionId userId : string) (createdAt : Z) : obj :=
  <["id" := VStr sessionId]> (
  <["userId" := VStr userId]> (
  <["createdAt" := VIso createdAt]> (
  <["status" := VStr "created"]> (
  <["audioFiles" := VFiles []]> (
  <["transcript" := VNull]> (
  <["reframedText" := VNull]> (
  <["generatedAudioUrl" := VNull]> (
  <["error" := VNull]> ∅)))))))).

(** One step of a run on a session that exists: an update of it or an
    adapter call. *)
Inductive step : Type :=
  | SUpdate (updates : obj)
  | SCall (ev : event).

(** The stored record and the world after a sequence of steps on session
    [sessionId], whose stored record is [s]. *)
Fixpoint runSteps (E : env) (sessionId : string) (steps : list step)
    (s : obj) (w : world) : obj * world :=
  match steps with
  | [] => (s, w)
  | SUpdate u :: rest =>
      let s' := merged s u (clock E (ticks w)) in
      runSteps E sessionId rest s'
        (World (<[sessionId := s']> (files w)) (S (ticks w)) (draws w)
               (log w ++ [EUpdate sessionId u s']))
  | SCall ev :: rest =>
      runSteps E sessionId rest s
        (World (files w) (ticks w) (draws w) (log w ++ [ev]))
  end.

(** The steps of a pipeline run on a session with stored record [s] that
    passes the guard, and its result, by the answers of the adapters. *)
Definition pipelineSteps (E : env) (sessionId : string) (s : obj)
    : outcome pipelineResult * list step :=
  let audioPath := lastPath s in
  let stage1 := [SUpdate (setStatus "transcribing"); SCall (ETranscribe audioPath)] in
  match transcribeAudio E audioPath with
  | Throw m => (Throw m, stage1 ++ [SUpdate (setFailed m)])%list
  | Ok t =>
      let stage2 := [SUpdate (setResult "transcript" (VStr t) "transcribed");
                     SUpdate (setStatus "reframing"); SCall (EReframe t)] in
      match reframeText E t with
      | Throw m => (Throw m, stage1 ++ stage2 ++ [SUpdate (setFailed m)])%list
      | Ok r =>
          let stage3 := [SUpdate (setResult "reframedText" (VStr r) "reframed");
                         SUpdate (setStatus "generating_audio");
                         SCall (ESynthesize r sessionId (s !! "userId"))] in
          match generateAudio E r sessionId (s !! "userId") with
          | Throw m =>
              (Ok (PipelineResult t r VNull),
               stage1 ++ stage2 ++ stage3 ++
               [SUpdate (ttsNote m);
                SUpdate (setResult "generatedAudioUrl" VNull "completed")])%list
          | Ok f =>
              (Ok (PipelineResult t r (VStr ("/uploads/" +:+ f))),
               stage1 ++ stage2 ++ stage3 ++
               [SUpdate (setResult "generatedAudioUrl" (VStr ("/uploads/" +:+ f))
                                   "completed")])%list
          end
      end
  end.

(** The position of a status in the life of a session. *)
Definition statusRank (st : string) : nat :=
  if String.eqb st "created" then 0
  else if String.eqb st "audio_uploaded" then 1
  else if String.eqb st "processing" then 2
  else if String.eqb st "transcribing" then 3
  else if String.eqb st "transcribed" then 4
  else if String.eqb st "reframing" then 5
  else if String.eqb st "reframed" then 6
  else if String.eqb st "generating_audio" then 7
  else if String.eqb st "completed" then 8
  else 9.

(** What an event means for the progress of a run: a status is written,
    a stage adapter is invoked, or something else is written. *)
Inductive mark : Type :=
  | Status (st : string)
  | Invoke (stage : string)
  | Other.

Definition statusMark (fields : obj) : mark :=
  match fields !! "status" with
  | Some (VStr st) => Status st
  | _ => Other
  end.

Definition markOf (ev : event) : mark :=
  match ev with
  | ECreate _ record => statusMark record
  | EUpdate _ updates _ => statusMark updates
  | ETranscribe _ => Invoke "transcription"
  | EReframe _ => Invoke "reframing"
  | ESynthesize _ _ _ => Invoke "synthesis"
  end.

(** The status values written, in order. *)
Definition statusWrites (evs : list event) : list string :=
  omap (fun ev => match markOf ev with Status st => Some st | _ => None end) evs.

(** The statuses of the records stored by the updates, in order: what
    somebody who reads the session after each write sees. *)
Fixpoint storedStatuses (evs : list event) : list string :=
  match evs with
  | [] => []
  | EUpdate _ _ record :: rest =>
      match record !! "status" with
      | Some (VStr st) => st :: storedStatuses rest
      | _ => storedStatuses rest
      end
  | _ :: rest => storedStatuses rest
  end.

(** The adapter calls made, in order. *)
Definition invocations (evs : list event) : list string :=
  omap (fun ev => match markOf ev with Invoke stage => Some stage | _ => None end) evs.


(** [new Date (session.createdAt)] in milliseconds. *)
Definition createdAtMs (E : env) (s : obj) : option Z := dateOf E (s !! "createdAt").

(** Both have a creation date, and that of [a] is not before that of [b]. *)
Definition notOlder (E : env) (a b : obj) : Prop :=
  exists ta tb, createdAtMs E a = Some ta /\ createdAtMs E b = Some tb /\ tb <= ta.

(** ** Sample inputs *)

Definition emptyWorld : world := World ∅ 0 0 [].

(** A [multer] file as the upload route receives it. *)
Definition sampleFile : multerFile :=
  MulterFile "audio_1.m4a" "memo.m4a" "uploads/S0/audio_1.m4a" 2048 "audio/m4a".

(** A clock that advances by a millisecond per reading, identifiers
    S0, S1, ..., and adapters that answer as the stubs of the scenario. *)
Definition stubEnv : env :=
  Env (fun n => 1000 + Z.of_nat n) (fun n => "S" +:+ pretty n) (fun _ => None)
      (fun _ => Ok "hello") (fun _ => Ok "HELLO") (fun _ _ _ => Ok "a1").

(** The same with a clock that is read twice within each millisecond:
    readings 2n+1 and 2n+2 are equal. *)
Definition coarseClockEnv : env :=
  Env (fun n => 1000 + Z.of_nat ((n + 1) / 2)) (fun n => "S" +:+ pretty n) (fun _ => None)
      (fun _ => Ok "hello") (fun _ => Ok "HELLO") (fun _ _ _ => Ok "a1").

(** Adapters that transcribe and reframe, with a synthesizer that has no
    API key. *)
Definition ttsDownEnv : env :=
  Env (fun n => 1000 + Z.of_nat n) (fun n => "S" +:+ pretty n) (fun _ => None)
      (fun _ => Ok "hello") (fun _ => Ok "HELLO")
      (fun _ _ _ => Throw "ElevenLabs API key not configured").

(** Errors as the HTTP client raises them: too many requests, a timeout,
    and a refused credential. *)
Definition tooManyRequests : Whisper.jsError :=
  Whisper.JsError (Some "Request failed with status code 429") (Some "ERR_BAD_REQUEST")
                  None None (Some 429) None.

Definition socketTimeout : Whisper.jsError :=
  Whisper.JsError (Some "timeout of 300000ms exceeded") (Some "ECONNABORTED")
                  None None None None.

Definition unauthorized : Whisper.jsError :=
  Whisper.JsError (Some "Request failed with status code 401") (Some "ERR_BAD_REQUEST")
                  None None (Some 401) None.

(** A configured Whisper service whose attempts are answered by [req]. *)
Definition whisperWith (req : nat -> Whisper.attemptResult) : Whisper.env :=
  Whisper.Env false true false (fun _ => None) (fun _ => req).

Definition recovering : Whisper.env :=
  whisperWith (fun n => if (n <? 3)%nat then Whisper.Failure tooManyRequests
                        else Whisper.Success "hello").

Definition throttled : Whisper.env :=
  whisperWith (fun _ => Whisper.Failure tooManyRequests).

Definition unreachable : Whisper.env :=
  whisperWith (fun _ => Whisper.Failure socketTimeout).

Definition refused : Whisper.env :=
  whisperWith (fun n => if (n <? 2)%nat then Whisper.Failure socketTimeout
                        else Whisper.Failure unauthorized).

(** The pipeline over the throttled Whisper service. *)
Definition throttledEnv : env :=
  Env (fun n => 1000 + Z.of_nat n) (fun n => "S" +:+ pretty n) (fun _ => None)
      (fun p => (Whisper.transcribeAudio throttled p).1) (fun _ => Ok "HELLO")
      (fun _ _ _ => Ok "a1").

(** A session of owner U with one uploaded file, and a store that holds
    it. *)
Definition uploadedRecord : obj :=
  merged (initialRecord "S0" "U" 1000)
         (setResult "audioFiles"
            (VFiles [AudioFile "audio_1.m4a" "memo.m4a" "uploads/S0/audio_1.m4a" 2048
                               "audio/m4a" 1001])
            "audio_uploaded")
         1002.

Definition uploadedWorld : world := World {[ "S0" := uploadedRecord ]} 3 1 [].

(** The same session after a run that failed. *)
Definition failedRecord : obj :=
  merged uploadedRecord (setFailed "Transcription failed: Rate limit exceeded.") 1004.

Definition failedWorld : world := World {[ "S0" := failedRecord ]} 5 1 [].

(** A store with two sessions of owner U and one of owner V. *)
Definition listedWorld : world :=
  World (<["S0" := initialRecord "S0" "U" 1000]> (
         <["S1" := initialRecord "S1" "V" 1001]> (
         {[ "S2" := initialRecord "S2" "U" 1002 ]}))) 3 3 [].

(** Create a session for [owner], upload one file, trigger the run, and
    get the session. *)
Definition scenario (E : env) (owner : string) (file : multerFile) : M response :=
  session ← createSession E owner;
  match session !! "id" with
  | Some (VStr sessionId) =>
      postUpload E sessionId owner (Some file);;
      postProcess E sessionId owner;;
      getSessionRoute sessionId owner
  | _ => throw "session without id"
  end.

(** * Properties *)

(** ** The retry loop *)

Section RetryEngine.

Import Whisper.

Variable req : nat -> attemptResult.

Lemma loopFrom_success attempt last t :
  (attempt <= maxRetries)%nat ->
  req attempt = Success t ->
  loopFrom req attempt last = (Ok t, [Call attempt]).
Proof.
  intros Hle Hreq. unfold loopFrom.
  replace (maxRetries + 1 - attempt)%nat with (S (maxRetries - attempt)) by lia.
  simpl. by rewrite Hreq.
Qed.

Lemma loopFrom_rate_limit attempt last e :
  (attempt < maxRetries)%nat ->
  req attempt = Failure e ->
  isRateLimit e = true ->
  loopFrom req attempt last =
    let '(r, evs) := loopFrom req (S attempt) (Some e) in
    (r, Call attempt :: Wait (Z.min (Z.of_nat attempt * 10000) 60000) :: evs).
Proof.
  intros Hlt Hreq Hrl. unfold loopFrom.
  replace (maxRetries + 1 - attempt)%nat with (S (maxRetries + 1 - S attempt)) by lia.
  simpl attemptLoop at 1. rewrite Hreq, Hrl.
  by destruct (Nat.ltb_spec attempt maxRetries); [|lia].
Qed.

Lemma loopFrom_connection attempt last e :
  (attempt < maxRetries)%nat ->
  req attempt = Failure e ->
  isRateLimit e = false ->
  isConnectionError e = true ->
  loopFrom req attempt last =
    let '(r, evs) := loopFrom req (S attempt) (Some e) in
    (r, Call attempt :: Wait (Z.of_nat attempt * 3000) :: evs).
Proof.
  intros Hlt Hreq Hrl Hce. unfold loopFrom.
  replace (maxRetries + 1 - attempt)%nat with (S (maxRetries + 1 - S attempt)) by lia.
  simpl attemptLoop at 1. rewrite Hreq, Hrl, Hce.
  by destruct (Nat.ltb_spec attempt maxRetries); [|lia].
Qed.

Lemma loopFrom_last_rate_limit last e :
  req maxRetries = Failure e ->
  isRateLimit e = true ->
  loopFrom req maxRetries last =
    (Throw "Transcription failed: Rate limit exceeded. Please try again in a few minutes.",
     [Call maxRetries]).
Proof.
  intros Hreq Hrl. unfold loopFrom. simpl. rewrite Hreq, Hrl.
  reflexivity.
Qed.

Lemma loopFrom_last_other last e :
  req maxRetries = Failure e ->
  isRateLimit e = false ->
  loopFrom req maxRetries last =
    (Throw ("Transcription failed after 3 attempts: " +:+ errorMessage e),
     [Call maxRetries]).
Proof.
  intros Hreq Hrl. unfold loopFrom. simpl. rewrite Hreq, Hrl.
  reflexivity.
Qed.

Lemma loopFrom_not_retryable attempt last e :
  (attempt < maxRetries)%nat ->
  req attempt = Failure e ->
  isRateLimit e = false ->
  isConnectionError e = false ->
  loopFrom req attempt last =
    (Throw ("Transcription failed: " +:+ errorMessage e), [Call attempt]).
Proof.
  intros Hlt Hreq Hrl Hce. unfold loopFrom.
  replace (maxRetries + 1 - attempt)%nat with (S (maxRetries + 1 - S attempt)) by lia.
  simpl attemptLoop at 1. rewrite Hreq, Hrl, Hce.
  destruct (Nat.ltb_spec attempt maxRetries); [|lia].
  destruct (Nat.eqb_spec attempt maxRetries); [lia|]. reflexivity.
Qed.

Lemma classify_transient e :
  classify e = TransientConnection ->
  isRateLimit e = false /\ isConnectionError e = true.
Proof. unfold classify. by repeat case_match. Qed.

Lemma classify_other e :
  classify e = OtherFailure ->
  isRateLimit e = false /\ isConnectionError e = false.
Proof. unfold classify. by repeat case_match. Qed.

Lemma errorMessage_given e m :
  message e = Some m -> m <> "" -> errorMessage e = m.
Proof.
  intros Hm Hne. unfold errorMessage, orStr. rewrite Hm.
  destruct (String.eqb_spec m ""); [done|reflexivity].
Qed.

End RetryEngine.

(** C3. A call wrapped by the retry loop (at most 3 attempts) that is
    answered with the rate-limit signal (HTTP 429) on attempts 1 and 2:
    if attempt 3 succeeds, its result is returned after exactly two waits,
    of [min (1 * 10 s, 60 s) = 10 s] and [min (2 * 10 s, 60 s) = 20 s],
    each between two calls; if attempt 3 is rate-limited too, exactly the
    3 attempts are made and the loop fails with the rate-limit-exceeded
    error, with no wait and no call after the third. *)
Theorem retry_rate_limit_backoff (E : Whisper.env) (audioPath : option string)
    (e1 e2 : Whisper.jsError) :
  Whisper.openaiClient E = true ->
  Whisper.statSync E audioPath = None ->
  Whisper.request E audioPath 1 = Whisper.Failure e1 ->
  Whisper.request E audioPath 2 = Whisper.Failure e2 ->
  Whisper.classify e1 = Whisper.RateLimited ->
  Whisper.classify e2 = Whisper.RateLimited ->
  (forall t, Whisper.request E audioPath 3 = Whisper.Success t ->
     Whisper.transcribeWithWhisper E audioPath =
       (Ok t, [Whisper.Call 1; Whisper.Wait (Z.min (1 * 10000) 60000);
               Whisper.Call 2; Whisper.Wait (Z.min (2 * 10000) 60000);
               Whisper.Call 3]) /\
     Whisper.waits (Whisper.transcribeWithWhisper E audioPath).2 = [10000; 20000]) /\
  (forall e3, Whisper.request E audioPath 3 = Whisper.Failure e3 ->
     Whisper.classify e3 = Whisper.RateLimited ->
     Whisper.transcribeWithWhisper E audioPath =
       (Throw "Transcription failed: Rate limit exceeded. Please try again in a few minutes.",
        [Whisper.Call 1; Whisper.Wait 10000; Whisper.Call 2; Whisper.Wait 20000;
         Whisper.Call 3]) /\
     Whisper.calls (Whisper.transcribeWithWhisper E audioPath).2 = [1; 2; 3]%nat).
Proof.
  intros Hcl Hst H1 H2 C1 C2.
  assert (R1 : Whisper.isRateLimit e1 = true).
  { unfold Whisper.classify in C1. by repeat case_match. }
  assert (R2 : Whisper.isRateLimit e2 = true).
  { unfold Whisper.classify in C2. by repeat case_match. }
  assert (Hrun : Whisper.transcribeWithWhisper E audioPath =
            let '(r, evs) := Whisper.loopFrom (Whisper.request E audioPath) 3 (Some e2) in
            (r, [Whisper.Call 1; Whisper.Wait 10000; Whisper.Call 2; Whisper.Wait 20000]
                  ++ evs)%list).
  { unfold Whisper.transcribeWithWhisper. rewrite Hcl, Hst. simpl negb. cbv iota.
    rewrite (loopFrom_rate_limit _ 1 None e1) by (done || (unfold Whisper.maxRetries; lia)).
    rewrite (loopFrom_rate_limit _ 2 (Some e1) e2) by (done || (unfold Whisper.maxRetries; lia)).
    by destruct (Whisper.loopFrom _ 3 _). }
  split.
  - intros t H3. rewrite Hrun.
    rewrite (loopFrom_success _ 3 _ t) by done. split; reflexivity.
  - intros e3 H3 C3.
    assert (R3 : Whisper.isRateLimit e3 = true).
    { unfold Whisper.classify in C3. by repeat case_match. }
    pose proof (loopFrom_last_rate_limit _ (Some e2) e3 H3 R3) as HL.
    change Whisper.maxRetries with 3%nat in HL.
    rewrite Hrun, HL. split; reflexivity.
Qed.

(** C5. In the retry loop, a failure classified as a transient connection
    error (and not as rate-limited) on an attempt before the last is
    followed by a wait of [attempt * 3 s] and then by the next attempt;
    on the last attempt it makes the loop fail with the
    failed-after-3-attempts error, which carries the message of that last
    error; a failure of neither class ends the loop at once with an error,
    whichever attempt it occurs on, with no wait and no further call.  In
    particular three connection errors in a row give waits of 3 s and 6 s
    and then the failure. *)
Theorem retry_transient_backoff (E : Whisper.env) (audioPath : option string) :
  let req := Whisper.request E audioPath in
  (forall attempt last e,
     (1 <= attempt < Whisper.maxRetries)%nat ->
     req attempt = Whisper.Failure e ->
     Whisper.classify e = Whisper.TransientConnection ->
     Whisper.loopFrom req attempt last =
       let '(r, evs) := Whisper.loopFrom req (S attempt) (Some e) in
       (r, Whisper.Call attempt :: Whisper.Wait (Z.of_nat attempt * 3000) :: evs)) /\
  (forall last e,
     req Whisper.maxRetries = Whisper.Failure e ->
     Whisper.classify e = Whisper.TransientConnection ->
     Whisper.loopFrom req Whisper.maxRetries last =
       (Throw ("Transcription failed after 3 attempts: " +:+ Whisper.errorMessage e),
        [Whisper.Call Whisper.maxRetries]) /\
     (forall m, Whisper.message e = Some m -> m <> "" -> Whisper.errorMessage e = m)) /\
  (forall attempt last e,
     (1 <= attempt <= Whisper.maxRetries)%nat ->
     req attempt = Whisper.Failure e ->
     Whisper.classify e = Whisper.OtherFailure ->
     exists msg, Whisper.loopFrom req attempt last = (Throw msg, [Whisper.Call attempt])) /\
  (forall e1 e2 e3,
     Whisper.openaiClient E = true ->
     Whisper.statSync E audioPath = None ->
     req 1%nat = Whisper.Failure e1 ->
     req 2%nat = Whisper.Failure e2 ->
     req 3%nat = Whisper.Failure e3 ->
     Whisper.classify e1 = Whisper.TransientConnection ->
     Whisper.classify e2 = Whisper.TransientConnection ->
     Whisper.classify e3 = Whisper.TransientConnection ->
     Whisper.transcribeWithWhisper E audioPath =
       (Throw ("Transcription failed after 3 attempts: " +:+ Whisper.errorMessage e3),
        [Whisper.Call 1; Whisper.Wait 3000; Whisper.Call 2; Whisper.Wait 6000;
         Whisper.Call 3])).
Proof.
  intros req. split_and!.
  - intros attempt last e [_ Hlt] Hreq [Hrl Hce]%classify_transient.
    by apply loopFrom_connection.
  - intros last e Hreq [Hrl Hce]%classify_transient. split.
    + by apply loopFrom_last_other.
    + intros m. apply errorMessage_given.
  - intros attempt last e [_ Hle] Hreq [Hrl Hce]%classify_other.
    destruct (decide (attempt = Whisper.maxRetries)) as [->|Hne].
    + eexists. by apply loopFrom_last_other.
    + eexists. apply loopFrom_not_retryable; [lia|done..].
  - subst req.
    intros e1 e2 e3 Hcl Hst H1 H2 H3 [R1 C1]%classify_transient
      [R2 C2]%classify_transient [R3 C3]%classify_transient.
    unfold Whisper.transcribeWithWhisper. rewrite Hcl, Hst. simpl negb. cbv iota.
    rewrite (loopFrom_connection _ 1 None e1) by (done || (unfold Whisper.maxRetries; lia)).
    rewrite (loopFrom_connection _ 2 (Some e1) e2) by (done || (unfold Whisper.maxRetries; lia)).
    pose proof (loopFrom_last_other _ (Some e2) e3 H3 R3) as HL.
    change Whisper.maxRetries with 3%nat in HL. by rewrite HL.
Qed.

(** ** The session store *)

Section Store.

Variable E : env.

Lemma bind_run {A B : Type} (m : M A) (f : A -> M B) (w : world) :
  (m ≫= f) w =
    match m w with
    | (Ok a, w') => f a w'
    | (Throw msg, w') => (Throw msg, w')
    end.
Proof. reflexivity. Qed.

Lemma updateSession_found sessionId updates w s :
  files w !! sessionId = Some s ->
  updateSession E sessionId updates w =
    (Ok (merged s updates (clock E (ticks w))),
     (runSteps E sessionId [SUpdate updates] s w).2).
Proof.
  intros Hs. unfold updateSession, getSession, readSessionFile.
  rewrite bind_run. simpl. rewrite Hs. reflexivity.
Qed.

Lemma updateSession_missing sessionId updates w :
  files w !! sessionId = None ->
  updateSession E sessionId updates w = (Throw "Session not found", w).
Proof.
  intros Hs. unfold updateSession, getSession, readSessionFile.
  rewrite bind_run. simpl. rewrite Hs. reflexivity.
Qed.

(** The stored record is the one the steps lead to. *)
Lemma runSteps_stored sessionId steps s w :
  files w !! sessionId = Some s ->
  files (runSteps E sessionId steps s w).2 !! sessionId =
    Some (runSteps E sessionId steps s w).1.
Proof.
  revert s w. induction steps as [|[u|ev] steps IH]; intros s w Hs; simpl.
  - done.
  - apply IH. simpl. apply lookup_insert_eq.
  - by apply IH.
Qed.

Lemma runSteps_app sessionId steps1 steps2 s w :
  runSteps E sessionId (steps1 ++ steps2) s w =
    runSteps E sessionId steps2 (runSteps E sessionId steps1 s w).1
                                (runSteps E sessionId steps1 s w).2.
Proof.
  revert s w. induction steps1 as [|[u|ev] steps1 IH]; intros s w; simpl; auto.
Qed.

(** Other sessions are not touched. *)
Lemma runSteps_others sessionId steps s w other :
  other <> sessionId ->
  files (runSteps E sessionId steps s w).2 !! other = files w !! other.
Proof.
  intros Hne. revert s w. induction steps as [|[u|ev] steps IH]; intros s w; simpl.
  - done.
  - rewrite IH. simpl. by apply lookup_insert_ne.
  - by rewrite IH.
Qed.

End Store.

(** ** The pipeline *)

Section Pipeline.

Variable E : env.

Lemma tryCatch_run {A : Type} (body : M A) (handler : string -> M A) (w : world) :
  tryCatch body handler w =
    match body w with
    | (Ok a, w') => (Ok a, w')
    | (Throw msg, w') => handler msg w'
    end.
Proof. reflexivity. Qed.

(** An update in the course of a run extends the steps by one. *)
Lemma updateSession_next sessionId steps u s w :
  files w !! sessionId = Some s ->
  updateSession E sessionId u (runSteps E sessionId steps s w).2 =
    (Ok (runSteps E sessionId (steps ++ [SUpdate u]) s w).1,
     (runSteps E sessionId (steps ++ [SUpdate u]) s w).2).
Proof.
  intros Hs.
  rewrite (updateSession_found E _ _ _ _ (runSteps_stored E _ steps _ _ Hs)).
  by rewrite runSteps_app.
Qed.

Lemma call_next {A : Type} sessionId steps ev (o : outcome A) s w :
  (emit ev;; lift o) (runSteps E sessionId steps s w).2 =
    (o, (runSteps E sessionId (steps ++ [SCall ev]) s w).2).
Proof. by rewrite runSteps_app. Qed.

Lemma runSteps_nil sessionId s w : w = (runSteps E sessionId [] s w).2.
Proof. reflexivity. Qed.

Lemma pipeline_run sessionId w s :
  files w !! sessionId = Some s ->
  noAudioFiles s = false ->
  processAudioPipeline E sessionId w =
    ((pipelineSteps E sessionId s).1,
     (runSteps E sessionId (pipelineSteps E sessionId s).2 s w).2).
Proof.
  intros Hs Haudio. unfold processAudioPipeline, pipelineSteps.
  rewrite tryCatch_run, bind_run.
  unfold getSession at 1, readSessionFile at 1. rewrite Hs.
  rewrite bind_run. unfold latestAudioPath. rewrite Haudio.
  unfold mret at 1, M_ret at 1.
  rewrite (runSteps_nil sessionId s w) at 1.
  unfold callTranscribe, callReframe, callGenerate, userIdOf.
  rewrite bind_run, updateSession_next by done.
  rewrite bind_run, call_next.
  destruct (transcribeAudio E (lastPath s)) as [t|m].
  2: { rewrite bind_run, updateSession_next by done. reflexivity. }
  rewrite bind_run, updateSession_next by done.
  rewrite bind_run, updateSession_next by done.
  rewrite bind_run, call_next.
  destruct (reframeText E t) as [r|m].
  2: { rewrite bind_run, updateSession_next by done. reflexivity. }
  rewrite bind_run, updateSession_next by done.
  rewrite bind_run, tryCatch_run, bind_run, updateSession_next by done.
  rewrite bind_run, call_next.
  destruct (generateAudio E r sessionId (s !! "userId")) as [f|m].
  - unfold mret at 1, M_ret at 1.
    rewrite bind_run, updateSession_next by done. reflexivity.
  - rewrite bind_run, updateSession_next by done.
    unfold mret at 1, M_ret at 1.
    rewrite bind_run, updateSession_next by done. reflexivity.
Qed.

(** The events of a run come after those already recorded. *)
Lemma runSteps_log sessionId steps s fs t d l :
  log (runSteps E sessionId steps s (World fs t d l)).2 =
    (l ++ log (runSteps E sessionId steps s (World fs t d [])).2)%list.
Proof.
  revert s fs t l. induction steps as [|[u|ev] steps IH]; intros s fs t l; simpl.
  - by rewrite app_nil_r.
  - rewrite IH. symmetry. rewrite IH. by rewrite app_assoc.
  - rewrite IH. symmetry. rewrite IH. by rewrite app_assoc.
Qed.

Lemma merged_updatedAt (s u : obj) t :
  merged s u t !! "updatedAt" = Some (VIso t).
Proof. apply lookup_insert_eq. Qed.

Lemma merged_lookup (s u : obj) t k :
  k <> "updatedAt" ->
  merged s u t !! k = from_option Some (s !! k) (u !! k).
Proof.
  intros Hk. unfold merged. rewrite lookup_insert_ne by done.
  rewrite lookup_union. by destruct (u !! k), (s !! k).
Qed.

End Pipeline.

(** Looking up a named field in a record built by updates. *)
Ltac field_step :=
  match goal with
  | |- context [ merged ?s ?u ?t !! "updatedAt" ] =>
      rewrite (merged_updatedAt s u t)
  | |- context [ merged ?s ?u ?t !! ?k ] =>
      rewrite (merged_lookup s u t k) by done;
      let r := eval vm_compute in (u !! k) in
      change (u !! k) with r; cbn [from_option]
  end.

Ltac fields := repeat field_step.

(** Running a literal list of steps. *)
Ltac run_steps :=
  cbn [runSteps app fst snd files ticks draws log];
  rewrite <- ?app_assoc; cbn [app].

(** Splitting a literal list at a given element. *)
Lemma cons_split {A : Type} (x : A) (l before rest : list A) :
  l = (before ++ rest)%list -> x :: l = ((x :: before) ++ rest)%list.
Proof. by intros ->. Qed.

Lemma here_split {A : Type} (x : A) (rest : list A) :
  x :: rest = ([] ++ x :: rest)%list.
Proof. reflexivity. Qed.

Ltac split_list := repeat first [apply here_split | apply cons_split].

(** C1. A run on a session with an audio file in which transcription and
    reframing succeed and the synthesis call fails returns normally; it
    leaves the session with status [completed], [generatedAudioUrl] null
    and [error] holding the synthesis note; the statuses written are the
    six of a complete run, [error] not among them; and every record
    written after the synthesis call still has the transcript and the
    reframed text that the first two stages persisted. *)
Theorem synthesis_failure_completes (E : env) (sessionId : string) (w : world)
    (s : obj) (t r m : string) :
  files w !! sessionId = Some s ->
  noAudioFiles s = false ->
  transcribeAudio E (lastPath s) = Ok t ->
  reframeText E t = Ok r ->
  generateAudio E r sessionId (s !! "userId") = Throw m ->
  exists (w' : world) (s' : obj) (before after : list event),
    processAudioPipeline E sessionId w = (Ok (PipelineResult t r VNull), w') /\
    files w' !! sessionId = Some s' /\
    s' !! "status" = Some (VStr "completed") /\
    s' !! "generatedAudioUrl" = Some VNull /\
    s' !! "error" =
      Some (VStr ("TTS unavailable: " +:+ m +:+ ". Transcript and reframe are ready.")) /\
    s' !! "transcript" = Some (VStr t) /\
    s' !! "reframedText" = Some (VStr r) /\
    log w' = (log w ++ before ++ ESynthesize r sessionId (s !! "userId") :: after)%list /\
    statusWrites (before ++ after) =
      ["transcribing"; "transcribed"; "reframing"; "reframed"; "generating_audio";
       "completed"] /\
    invocations before = ["transcription"; "reframing"] /\
    Forall (fun ev => match ev with
                      | EUpdate _ _ record =>
                          record !! "transcript" = Some (VStr t) /\
                          record !! "reframedText" = Some (VStr r)
                      | _ => False
                      end) after.
Proof.
  intros Hs Haudio Ht Hr Hg.
  rewrite (pipeline_run E _ _ _ Hs Haudio). unfold pipelineSteps.
  rewrite Ht, Hr, Hg. destruct w as [fs tk d l]. run_steps.
  eexists _, _, _, _. split; [reflexivity|].
  cbn [files log].
  split; [apply lookup_insert_eq|].
  repeat split.
  - by fields.
  - by fields.
  - by fields.
  - by fields.
  - by fields.
  - f_equal. split_list.
  - reflexivity.
  - reflexivity.
  - (repeat constructor; by fields).
Qed.

(** C2. A run on a session with an audio file in which the transcription
    call fails rethrows the failure; it leaves the session with status
    [error] and [error] holding the message of the failure; [transcript]
    and [reframedText] are left exactly as they were before the run, so
    unset where they were unset; and the only adapter called is the
    transcriber: neither reframing nor synthesis is invoked. *)
Theorem transcription_failure_aborts (E : env) (sessionId : string) (w : world)
    (s : obj) (m : string) :
  files w !! sessionId = Some s ->
  noAudioFiles s = false ->
  transcribeAudio E (lastPath s) = Throw m ->
  exists (w' : world) (s' : obj) (evs : list event),
    processAudioPipeline E sessionId w = (Throw m, w') /\
    files w' !! sessionId = Some s' /\
    s' !! "status" = Some (VStr "error") /\
    s' !! "error" = Some (VStr m) /\
    s' !! "transcript" = s !! "transcript" /\
    s' !! "reframedText" = s !! "reframedText" /\
    log w' = (log w ++ evs)%list /\
    invocations evs = ["transcription"] /\
    statusWrites evs = ["transcribing"; "error"].
Proof.
  intros Hs Haudio Ht.
  rewrite (pipeline_run E _ _ _ Hs Haudio). unfold pipelineSteps.
  rewrite Ht. destruct w as [fs tk d l]. run_steps.
  eexists _, _, _. split; [reflexivity|].
  cbn [files log].
  split; [apply lookup_insert_eq|].
  repeat split; try by fields.
Qed.

(** C8. In a run on a session with an audio file, the status writes and
    the adapter calls happen in this order: [transcribing], the
    transcriber, then [error] if it failed, else [transcribed],
    [reframing], the reframer, then [error] if it failed, else [reframed],
    [generating_audio], the synthesizer, then the error note (which writes
    no status) if it failed, and [completed] in either case.  So the
    entry status of a stage is written just before its adapter is called
    and its completion status just after the call returns, and the
    statuses written are strictly increasing in the order of the stages:
    none is written after a later one. *)
Theorem status_writes_in_stage_order (E : env) (sessionId : string) (w : world)
    (s : obj) :
  files w !! sessionId = Some s ->
  noAudioFiles s = false ->
  exists (res : outcome pipelineResult) (w' : world) (evs : list event),
    processAudioPipeline E sessionId w = (res, w') /\
    log w' = (log w ++ evs)%list /\
    markOf <$> evs =
      ([Status "transcribing"; Invoke "transcription"] ++
       match transcribeAudio E (lastPath s) with
       | Throw _ => [Status "error"]
       | Ok t =>
           [Status "transcribed"; Status "reframing"; Invoke "reframing"] ++
           match reframeText E t with
           | Throw _ => [Status "error"]
           | Ok r =>
               [Status "reframed"; Status "generating_audio"; Invoke "synthesis"] ++
               match generateAudio E r sessionId (s !! "userId") with
               | Throw _ => [Other; Status "completed"]
               | Ok _ => [Status "completed"]
               end
           end
       end)%list /\
    StronglySorted lt (statusRank <$> statusWrites evs) /\
    StronglySorted le (statusRank <$> storedStatuses evs).
Proof.
  intros Hs Haudio.
  rewrite (pipeline_run E _ _ _ Hs Haudio). unfold pipelineSteps.
  destruct w as [fs tk d l].
  destruct (transcribeAudio E (lastPath s)) as [t|m];
    [destruct (reframeText E t) as [r|m];
      [destruct (generateAudio E r sessionId (s !! "userId")) as [f|m]|]|];
    run_steps; eexists _, _, _;
    (split; [reflexivity|]); cbn [log];
    (split; [reflexivity|]);
    (split; [reflexivity|]);
    (split; [vm_compute; repeat constructor|]);
    repeat (cbn [storedStatuses]; field_step);
    vm_compute; repeat constructor.
Qed.

(** A field that an update does not give keeps its stored value. *)
Lemma merged_frame (s u : obj) (t : Z) (k : string) :
  k <> "updatedAt" -> u !! k = None -> merged s u t !! k = s !! k.
Proof. intros Hk Hu. by rewrite merged_lookup, Hu. Qed.

Lemma setStatus_other (st k : string) :
  k <> "status" -> setStatus st !! k = None.
Proof. intros Hk. unfold setStatus. by rewrite lookup_singleton_ne. Qed.

Lemma setResult_other (f : string) (v : value) (st k : string) :
  k <> f -> k <> "status" -> setResult f v st !! k = None.
Proof.
  intros Hf Hk. unfold setResult.
  rewrite lookup_insert_ne by done. by rewrite lookup_singleton_ne.
Qed.

(** C9. A run on a session with an audio file in which all three stages
    succeed ends with status [completed] and with the [error] field as it
    was before the run, whatever its value (so still non-null if it was
    non-null): no update
    of the run gives an [error] field; the last update gives exactly
    [generatedAudioUrl] and [status]; the transcript and the reframed
    text are each given by one update only and are those of the stages at
    the end; and every field other than [status], [transcript],
    [reframedText], [generatedAudioUrl] and [updatedAt] is as before. *)
Theorem success_keeps_error_field (E : env) (sessionId : string) (w : world)
    (s : obj) (t r f : string) (e : value) :
  files w !! sessionId = Some s ->
  noAudioFiles s = false ->
  s !! "error" = Some e ->
  transcribeAudio E (lastPath s) = Ok t ->
  reframeText E t = Ok r ->
  generateAudio E r sessionId (s !! "userId") = Ok f ->
  exists (w' : world) (s' : obj) (evs : list event) (final : obj),
    processAudioPipeline E sessionId w =
      (Ok (PipelineResult t r (VStr ("/uploads/" +:+ f))), w') /\
    files w' !! sessionId = Some s' /\
    s' !! "status" = Some (VStr "completed") /\
    s' !! "error" = Some e /\
    s' !! "transcript" = Some (VStr t) /\
    s' !! "reframedText" = Some (VStr r) /\
    log w' = (log w ++ evs ++ [EUpdate sessionId final s'])%list /\
    final = setResult "generatedAudioUrl" (VStr ("/uploads/" +:+ f)) "completed" /\
    dom final = {[ "generatedAudioUrl"; "status" ]} /\
    Forall (fun ev => match ev with
                      | EUpdate _ updates _ => updates !! "error" = None
                      | _ => True
                      end) (evs ++ [EUpdate sessionId final s']) /\
    omap (fun ev => match ev with
                    | EUpdate _ updates _ => updates !! "transcript"
                    | _ => None
                    end) evs = [VStr t] /\
    omap (fun ev => match ev with
                    | EUpdate _ updates _ => updates !! "reframedText"
                    | _ => None
                    end) evs = [VStr r] /\
    (forall k, k <> "status" -> k <> "transcript" -> k <> "reframedText" ->
               k <> "generatedAudioUrl" -> k <> "updatedAt" ->
               s' !! k = s !! k).
Proof.
  intros Hs Haudio He Ht Hr Hg.
  rewrite (pipeline_run E _ _ _ Hs Haudio). unfold pipelineSteps.
  rewrite Ht, Hr, Hg. destruct w as [fs tk d l]. run_steps.
  eexists _, _, _, _. split; [reflexivity|].
  cbn [files log].
  split; [apply lookup_insert_eq|].
  split; [by fields|]. split; [by fields|].
  split; [by fields|]. split; [by fields|].
  split.
  { f_equal.
    repeat first [ apply (eq_refl : [_] = ([] ++ [_])%list) | apply cons_split ]. }
  split; [reflexivity|].
  split; [by vm_compute|].
  split; [repeat constructor|].
  split; [reflexivity|]. split; [reflexivity|].
  intros k K1 K2 K3 K4 K5.
  rewrite merged_frame by (done || by apply setResult_other).
  rewrite merged_frame by (done || by apply setStatus_other).
  rewrite merged_frame by (done || by apply setResult_other).
  rewrite merged_frame by (done || by apply setStatus_other).
  rewrite merged_frame by (done || by apply setResult_other).
  rewrite merged_frame by (done || by apply setStatus_other).
  reflexivity.
Qed.

(** ** Creating, reading and updating sessions *)

Lemma createSession_run (E : env) (userId : string) (w : world) :
  createSession E userId w =
    (Ok (initialRecord (uuidv4 E (draws w)) userId (clock E (ticks w))),
     World (<[uuidv4 E (draws w) :=
                initialRecord (uuidv4 E (draws w)) userId (clock E (ticks w))]> (files w))
           (S (ticks w)) (S (draws w))
           (log w ++ [ECreate (uuidv4 E (draws w))
                        (initialRecord (uuidv4 E (draws w)) userId (clock E (ticks w)))])).
Proof. reflexivity. Qed.

Lemma initialRecord_dom (sessionId userId : string) (t : Z) :
  dom (initialRecord sessionId userId t) =
    {[ "id"; "userId"; "createdAt"; "status"; "audioFiles"; "transcript";
       "reframedText"; "generatedAudioUrl"; "error" ]}.
Proof.
  unfold initialRecord. rewrite !dom_insert_L, dom_empty_L. set_solver.
Qed.

(** C10. The record that [createSession] returns has a [createdAt] and no
    [updatedAt] field (its fields are the nine that the function lists);
    [getSession] returns that same record right after the creation and
    after any updates of other sessions; and the record that the first
    [updateSession] on it returns and stores has an [updatedAt], the time
    of that update. *)
Theorem new_session_has_no_updatedAt (E : env) (userId : string) (w : world) :
  exists (sessionId : string) (session : obj) (w' : world),
    createSession E userId w = (Ok session, w') /\
    session !! "id" = Some (VStr sessionId) /\
    session !! "createdAt" = Some (VIso (clock E (ticks w))) /\
    session !! "updatedAt" = None /\
    dom session =
      {[ "id"; "userId"; "createdAt"; "status"; "audioFiles"; "transcript";
         "reframedText"; "generatedAudioUrl"; "error" ]} /\
    getSession sessionId w' = (Ok (Some session), w') /\
    (forall other steps s0,
       other <> sessionId ->
       (getSession sessionId (runSteps E other steps s0 w').2).1 = Ok (Some session)) /\
    (forall updates, exists (s2 : obj) (w2 : world),
       updateSession E sessionId updates w' = (Ok s2, w2) /\
       s2 !! "updatedAt" = Some (VIso (clock E (ticks w'))) /\
       getSession sessionId w2 = (Ok (Some s2), w2)).
Proof.
  rewrite createSession_run.
  eexists _, _, _. split; [reflexivity|].
  split; [apply lookup_insert_eq|].
  split; [unfold initialRecord; by rewrite !lookup_insert_ne by done; apply lookup_insert_eq|].
  split; [unfold initialRecord; by rewrite !lookup_insert_ne by done|].
  split; [apply initialRecord_dom|].
  split.
  { unfold getSession, readSessionFile. cbn [files]. by rewrite lookup_insert_eq. }
  split.
  { intros other steps s0 Hne. unfold getSession, readSessionFile. cbn [fst].
    rewrite runSteps_others by done. cbn [files]. by rewrite lookup_insert_eq. }
  intros updates. eexists _, _.
  split; [apply updateSession_found; cbn [files]; apply lookup_insert_eq|].
  split; [apply merged_updatedAt|].
  unfold getSession, readSessionFile. cbn [runSteps snd files].
  by rewrite lookup_insert_eq.
Qed.

(** C6 (as the code has it). For a session that exists, [updateSession]
    returns the stored record with the given fields merged in and with
    [updatedAt] set to the time read by this update (a given [updatedAt]
    is overridden by it); it stores that record, so that [getSession]
    returns it; with [{status: x}] the status read back is [x]; the new
    [updatedAt] is not before an earlier reading of a clock that does not
    go back, and equals the previous [updatedAt] when the clock has not
    advanced since.  For a session that does not exist [updateSession]
    throws "Session not found" and changes nothing. *)
Theorem update_merges_and_stamps (E : env) (sessionId : string) (updates : obj)
    (w : world) :
  (forall s, files w !! sessionId = Some s ->
     exists (s' : obj) (w' : world),
       updateSession E sessionId updates w = (Ok s', w') /\
       getSession sessionId w' = (Ok (Some s'), w') /\
       s' !! "updatedAt" = Some (VIso (clock E (ticks w))) /\
       (forall k, k <> "updatedAt" ->
          s' !! k = match updates !! k with Some v => Some v | None => s !! k end) /\
       (forall x, updates = {[ "status" := VStr x ]} ->
          s' !! "status" = Some (VStr x)) /\
       (forall n,
          s !! "updatedAt" = Some (VIso (clock E n)) ->
          (n <= ticks w)%nat ->
          (forall i j, (i <= j)%nat -> clock E i <= clock E j) ->
          exists t', s' !! "updatedAt" = Some (VIso t') /\ clock E n <= t') /\
       (forall n,
          s !! "updatedAt" = Some (VIso (clock E n)) ->
          clock E n = clock E (ticks w) ->
          s' !! "updatedAt" = s !! "updatedAt") /\
       (forall other, other <> sessionId -> files w' !! other = files w !! other)) /\
  (files w !! sessionId = None ->
     updateSession E sessionId updates w = (Throw "Session not found", w)).
Proof.
  split; [|apply updateSession_missing].
  intros s Hs. eexists _, _.
  split; [by apply updateSession_found|].
  cbn [runSteps snd].
  split.
  { unfold getSession, readSessionFile. cbn [files]. by rewrite lookup_insert_eq. }
  split; [apply merged_updatedAt|].
  split.
  { intros k Hk. rewrite merged_lookup by done. by destruct (updates !! k). }
  split.
  { intros x ->. rewrite merged_lookup by done. by rewrite lookup_singleton_eq. }
  split.
  { intros n _ Hn Hmono. eexists. split; [apply merged_updatedAt|]. by apply Hmono. }
  split.
  { intros n -> ->. apply merged_updatedAt. }
  intros other Hne. cbn [files]. by apply lookup_insert_ne.
Qed.

(** ** The route handlers and the scenario *)

Section Routes.
Variable E : env.

Lemma getSessionRoute_ok sessionId owner w s :
  files w !! sessionId = Some s ->
  ownedBy owner s = true ->
  getSessionRoute sessionId owner w = (Ok (Json 200 s), w).
Proof.
  intros Hs Ho. unfold getSessionRoute, getSession, readSessionFile, notOwner.
  rewrite tryCatch_run, bind_run, Hs, Ho. reflexivity.
Qed.

(** The fields that the upload handler gives to [updateSession]. *)
Lemma postUpload_ok sessionId owner f w s l :
  files w !! sessionId = Some s ->
  ownedBy owner s = true ->
  s !! "audioFiles" = Some (VFiles l) ->
  exists body,
  postUpload E sessionId owner (Some f) w =
    (Ok (Json 200 body),
     (runSteps E sessionId
        [SUpdate (setResult "audioFiles"
           (VFiles (l ++ [AudioFile (f_filename f) (f_originalname f) (f_path f)
                                    (f_size f) (f_mimetype f) (clock E (ticks w))]))
           "audio_uploaded")]
        s (World (files w) (S (ticks w)) (draws w) (log w))).2).
Proof.
  intros Hs Ho Ha. eexists. unfold postUpload, notOwner.
  rewrite tryCatch_run, bind_run. unfold getSession at 1, readSessionFile at 1.
  rewrite Hs, Ho, Ha. cbn [negb].
  rewrite bind_run. unfold mret at 1, M_ret at 1.
  rewrite bind_run. unfold now at 1.
  rewrite bind_run.
  rewrite (updateSession_found E sessionId _ (World (files w) (S (ticks w)) (draws w) (log w)) s Hs).
  reflexivity.
Qed.

Lemma noAudioFiles_merged (s u : obj) t :
  u !! "audioFiles" = None ->
  noAudioFiles (merged s u t) = noAudioFiles s.
Proof. intros Hu. unfold noAudioFiles. by rewrite merged_frame. Qed.

Lemma lastPath_merged (s u : obj) t :
  u !! "audioFiles" = None ->
  lastPath (merged s u t) = lastPath s.
Proof. intros Hu. unfold lastPath. by rewrite merged_frame. Qed.

Lemma ownedBy_merged owner (s u : obj) t :
  u !! "userId" = None ->
  ownedBy owner (merged s u t) = ownedBy owner s.
Proof. intros Hu. unfold ownedBy. by rewrite merged_frame. Qed.

Lemma ownedBy_runSteps owner sessionId steps s w :
  Forall (fun st => match st with
                    | SUpdate u => u !! "userId" = None
                    | SCall _ => True
                    end) steps ->
  ownedBy owner (runSteps E sessionId steps s w).1 = ownedBy owner s.
Proof.
  intros Hsteps. revert s w.
  induction Hsteps as [|[u|ev] steps Hu _ IH]; intros s w; cbn [runSteps].
  - done.
  - by rewrite IH, ownedBy_merged.
  - apply IH.
Qed.

(** The trigger: the status goes to [processing], the pipeline runs, and
    a failure that it rethrows is written once more by the handler. *)
Lemma postProcess_ok sessionId owner w s :
  files w !! sessionId = Some s ->
  ownedBy owner s = true ->
  noAudioFiles s = false ->
  let s1 := merged s (setStatus "processing") (clock E (ticks w)) in
  exists body,
  postProcess E sessionId owner w =
    (Ok (Json 200 body),
     (runSteps E sessionId
        (SUpdate (setStatus "processing") :: (pipelineSteps E sessionId s1).2 ++
         match (pipelineSteps E sessionId s1).1 with
         | Ok _ => []
         | Throw m => [SUpdate (setFailed m)]
         end) s w).2).
Proof.
  intros Hs Ho Ha s1. eexists. unfold postProcess, notOwner.
  rewrite tryCatch_run, bind_run. unfold getSession at 1, readSessionFile at 1.
  rewrite Hs, Ho, Ha. cbn [negb].
  rewrite bind_run, (updateSession_found E _ _ _ s Hs).
  rewrite bind_run, tryCatch_run, bind_run.
  assert (Hs1 : files (runSteps E sessionId [SUpdate (setStatus "processing")] s w).2
                  !! sessionId = Some s1) by apply lookup_insert_eq.
  assert (Ha1 : noAudioFiles s1 = false) by (by unfold s1; rewrite noAudioFiles_merged).
  change (processAudioPipeline E sessionId _) with
    (processAudioPipeline E sessionId
       (runSteps E sessionId [SUpdate (setStatus "processing")] s w).2).
  rewrite (pipeline_run E _ _ s1 Hs1 Ha1).
  destruct (pipelineSteps E sessionId s1) as [[res|m] steps]; cbn [fst snd].
  - rewrite app_nil_r. reflexivity.
  - rewrite tryCatch_run, bind_run.
    rewrite (updateSession_found E _ _ _ _ (runSteps_stored E _ steps _ _ Hs1)).
    cbn [runSteps]. rewrite runSteps_app. reflexivity.
Qed.

End Routes.

(** C4 (as the code has it). Create a session for an owner, upload one
    audio file, trigger the run with a transcriber that returns "hello",
    a reframer that returns "HELLO" and a synthesizer that returns the
    file name "a1", then get the session: the record has status
    [completed], transcript "hello", reframed text "HELLO", and
    [generatedAudioUrl] "/uploads/a1", the name under the [/uploads/]
    route.  This holds for every clock, identifier generator and earlier
    content of the store. *)
Theorem scenario_result (E : env) (owner : string) (file : multerFile) (w : world) :
  (forall p, transcribeAudio E p = Ok "hello") ->
  (forall t, reframeText E t = Ok "HELLO") ->
  (forall t sid u, generateAudio E t sid u = Ok "a1") ->
  exists (record : obj) (w' : world),
    scenario E owner file w = (Ok (Json 200 record), w') /\
    record !! "status" = Some (VStr "completed") /\
    record !! "transcript" = Some (VStr "hello") /\
    record !! "reframedText" = Some (VStr "HELLO") /\
    record !! "generatedAudioUrl" = Some (VStr "/uploads/a1").
Proof.
  intros HT HR HS. unfold scenario.
  rewrite bind_run, createSession_run.
  set (sid := uuidv4 E (draws w)).
  set (s0 := initialRecord sid owner (clock E (ticks w))).
  assert (Hid : s0 !! "id" = Some (VStr sid)) by apply lookup_insert_eq.
  rewrite Hid.
  assert (Hown : ownedBy owner s0 = true).
  { unfold ownedBy, s0, initialRecord. rewrite lookup_insert_ne by done.
    rewrite lookup_insert_eq. apply String.eqb_refl. }
  assert (Haud : s0 !! "audioFiles" = Some (VFiles [])).
  { unfold s0, initialRecord. rewrite !lookup_insert_ne by done. apply lookup_insert_eq. }
  set (w1 := World _ _ _ _).
  assert (Hs0 : files w1 !! sid = Some s0) by apply lookup_insert_eq.
  rewrite bind_run.
  destruct (postUpload_ok E sid owner file w1 s0 [] Hs0 Hown Haud) as [body1 ->].
  match goal with
  | |- context [ (runSteps E sid [SUpdate ?u] s0 ?w0).2 ] =>
      set (up := u); set (w2 := (runSteps E sid [SUpdate up] s0 w0).2);
      set (s1 := (runSteps E sid [SUpdate up] s0 w0).1)
  end.
  assert (Hs1 : files w2 !! sid = Some s1) by apply lookup_insert_eq.
  assert (Hown1 : ownedBy owner s1 = true).
  { unfold s1. cbn [runSteps fst]. by rewrite ownedBy_merged. }
  assert (Haud1 : noAudioFiles s1 = false).
  { unfold s1, noAudioFiles. cbn [runSteps fst]. rewrite merged_lookup by done.
    unfold up, setResult. by rewrite lookup_insert_eq. }
  rewrite bind_run.
  destruct (postProcess_ok E sid owner w2 s1 Hs1 Hown1 Haud1) as [body2 ->].
  unfold pipelineSteps. rewrite HT, HR, HS. cbn [fst snd app].
  match goal with
  | |- context [ (runSteps E sid ?steps s1 w2).2 ] =>
      set (w3 := (runSteps E sid steps s1 w2).2);
      set (s3 := (runSteps E sid steps s1 w2).1)
  end.
  assert (Hs3 : files w3 !! sid = Some s3) by (by apply runSteps_stored).
  assert (Hown3 : ownedBy owner s3 = true).
  { unfold s3. rewrite ownedBy_runSteps; [exact Hown1|].
    repeat constructor. }
  rewrite (getSessionRoute_ok sid owner w3 s3 Hs3 Hown3).
  eexists _, _. split; [reflexivity|].
  unfold s3. cbn [runSteps fst snd files ticks draws log].
  repeat split; by fields.
Qed.

(** ** Listing the sessions of an owner *)

Section Listing.

Variable E : env.

Lemma insertBy_perm {A : Type} (cmp : A -> A -> Z) (x : A) (l : list A) :
  insertBy cmp x l ≡ₚ x :: l.
Proof.
  induction l as [|y l IH]; simpl; [done|].
  destruct (0 <? cmp x y); [|done].
  rewrite IH. apply Permutation_swap.
Qed.

Lemma sortBy_perm {A : Type} (cmp : A -> A -> Z) (l : list A) :
  sortBy cmp l ≡ₚ l.
Proof.
  induction l as [|x l IH]; simpl; [done|].
  by rewrite insertBy_perm, IH.
Qed.

Lemma byCreatedDesc_dated (a b : obj) ta tb :
  createdAtMs E a = Some ta -> createdAtMs E b = Some tb ->
  byCreatedDesc E a b = tb - ta.
Proof. unfold createdAtMs, byCreatedDesc. by intros -> ->. Qed.

Lemma notOlder_trans (a b c : obj) :
  notOlder E a b -> notOlder E b c -> notOlder E a c.
Proof.
  intros (ta & tb & Ha & Hb & Hab) (tb' & tc & Hb' & Hc & Hbc).
  exists ta, tc. rewrite Hb in Hb'. injection Hb' as <-. repeat split; [done..|lia].
Qed.

Lemma insertBy_sorted (x : obj) (l : list obj) :
  is_Some (createdAtMs E x) ->
  Forall (fun s => is_Some (createdAtMs E s)) l ->
  StronglySorted (notOlder E) l ->
  StronglySorted (notOlder E) (insertBy (byCreatedDesc E) x l).
Proof.
  intros [tx Hx] Hl Hsorted.
  induction Hsorted as [|y l Hsorted IH Hy]; simpl.
  - repeat constructor.
  - apply Forall_cons in Hl as [[ty Hty] Hl].
    rewrite (byCreatedDesc_dated x y tx ty) by done.
    destruct (Z.ltb_spec 0 (ty - tx)) as [Hlt|Hge].
    + constructor; [by apply IH|].
      rewrite insertBy_perm. constructor; [|done].
      exists ty, tx. repeat split; [done..|lia].
    + assert (Hxy : notOlder E x y) by (exists tx, ty; repeat split; [done..|lia]).
      constructor; [by constructor|].
      constructor; [done|].
      eapply Forall_impl; [exact Hy|]. intros z Hz. by eapply notOlder_trans.
Qed.

Lemma sortBy_sorted (l : list obj) :
  Forall (fun s => is_Some (createdAtMs E s)) l ->
  StronglySorted (notOlder E) (sortBy (byCreatedDesc E) l).
Proof.
  induction 1 as [|x l Hx Hl IH]; simpl; [constructor|].
  apply insertBy_sorted; [done| |done].
  by rewrite sortBy_perm.
Qed.

Lemma ownedBy_true (userId : string) (s : obj) :
  ownedBy userId s = true <-> s !! "userId" = Some (VStr userId).
Proof.
  unfold ownedBy. destruct (s !! "userId") as [[|u| |]|]; try (split; [done|congruence]).
  rewrite String.eqb_eq. split; congruence.
Qed.

End Listing.

(** C7. [getUserSessions] returns, without changing anything, exactly the
    stored sessions whose [userId] is the given owner: a record is in the
    result if and only if it is stored and has that [userId], each as
    often as the directory holds it; and when the owner's stored sessions
    all have a [createdAt] that is a date, the result is sorted
    newest-first: every session in it is at least as new as all that
    follow it. *)
Theorem sessions_of_owner_newest_first (E : env) (userId : string) (w : world) :
  exists (l : list obj),
    getUserSessions E userId w = (Ok l, w) /\
    (forall s, s ∈ l <->
       exists sessionId, files w !! sessionId = Some s /\
                         s !! "userId" = Some (VStr userId)) /\
    l ≡ₚ filter (fun s => ownedBy userId s = true) (map_to_list (files w)).*2 /\
    ((forall sessionId s,
        files w !! sessionId = Some s ->
        s !! "userId" = Some (VStr userId) ->
        is_Some (createdAtMs E s)) ->
     StronglySorted (notOlder E) l).
Proof.
  eexists. split; [reflexivity|].
  unfold readdirSync.
  assert (Hmem : forall s,
    s ∈ filter (fun s => ownedBy userId s = true) (map_to_list (files w)).*2 <->
    exists sessionId, files w !! sessionId = Some s /\ s !! "userId" = Some (VStr userId)).
  { intros s. rewrite list_elem_of_filter, ownedBy_true, list_elem_of_fmap. split.
    - intros [Hu ([sid s'] & -> & Hin)]. exists sid. split; [|done].
      by apply elem_of_map_to_list.
    - intros (sid & Hs & Hu). split; [done|]. exists (sid, s). split; [done|].
      by apply elem_of_map_to_list. }
  split; [|split].
  - intros s. by rewrite sortBy_perm.
  - apply sortBy_perm.
  - intros Hdated. apply sortBy_sorted. apply Forall_forall. intros s Hs.
    apply Hmem in Hs as (sid & Hs & Hu). by eapply Hdated.
Qed.

(** * The properties at sample inputs *)

Lemma synthesis_failure_completes_witness :
  (files uploadedWorld !! "S0" = Some uploadedRecord /\
   noAudioFiles uploadedRecord = false /\
   transcribeAudio ttsDownEnv (lastPath uploadedRecord) = Ok "hello" /\
   reframeText ttsDownEnv "hello" = Ok "HELLO" /\
   generateAudio ttsDownEnv "HELLO" "S0" (uploadedRecord !! "userId") =
     Throw "ElevenLabs API key not configured") /\
  exists w' s',
    processAudioPipeline ttsDownEnv "S0" uploadedWorld =
      (Ok (PipelineResult "hello" "HELLO" VNull), w') /\
    files w' !! "S0" = Some s' /\
    s' !! "status" = Some (VStr "completed") /\
    s' !! "generatedAudioUrl" = Some VNull /\
    s' !! "error" =
      Some (VStr "TTS unavailable: ElevenLabs API key not configured. Transcript and reframe are ready.").
Proof.
  assert (H1 : files uploadedWorld !! "S0" = Some uploadedRecord) by reflexivity.
  assert (H2 : noAudioFiles uploadedRecord = false) by (vm_compute; reflexivity).
  assert (H3 : transcribeAudio ttsDownEnv (lastPath uploadedRecord) = Ok "hello")
    by reflexivity.
  assert (H4 : reframeText ttsDownEnv "hello" = Ok "HELLO") by reflexivity.
  assert (H5 : generateAudio ttsDownEnv "HELLO" "S0" (uploadedRecord !! "userId") =
                 Throw "ElevenLabs API key not configured") by reflexivity.
  split; [by repeat split|].
  destruct (synthesis_failure_completes ttsDownEnv "S0" uploadedWorld uploadedRecord
              "hello" "HELLO" "ElevenLabs API key not configured" H1 H2 H3 H4 H5)
    as (w' & s' & before & after & Hrun & Hs' & Hst & Hurl & Herr & _).
  exists w', s'. by repeat split.
Defined.

Lemma transcription_failure_aborts_witness :
  (files uploadedWorld !! "S0" = Some uploadedRecord /\
   noAudioFiles uploadedRecord = false /\
   transcribeAudio throttledEnv (lastPath uploadedRecord) =
     Throw "Transcription failed: Rate limit exceeded. Please try again in a few minutes.") /\
  exists w' s' evs,
    processAudioPipeline throttledEnv "S0" uploadedWorld =
      (Throw "Transcription failed: Rate limit exceeded. Please try again in a few minutes.",
       w') /\
    files w' !! "S0" = Some s' /\
    s' !! "status" = Some (VStr "error") /\
    s' !! "transcript" = Some VNull /\
    s' !! "reframedText" = Some VNull /\
    log w' = evs /\
    invocations evs = ["transcription"].
Proof.
  assert (H1 : files uploadedWorld !! "S0" = Some uploadedRecord) by reflexivity.
  assert (H2 : noAudioFiles uploadedRecord = false) by (vm_compute; reflexivity).
  assert (H3 : transcribeAudio throttledEnv (lastPath uploadedRecord) =
                 Throw "Transcription failed: Rate limit exceeded. Please try again in a few minutes.")
    by (vm_compute; reflexivity).
  split; [by repeat split|].
  destruct (transcription_failure_aborts throttledEnv "S0" uploadedWorld uploadedRecord
              _ H1 H2 H3)
    as (w' & s' & evs & Hrun & Hs' & Hst & Herr & Htr & Hre & Hlog & Hinv & _).
  exists w', s', evs. by repeat split.
Defined.

Lemma retry_rate_limit_backoff_witness :
  Whisper.transcribeWithWhisper recovering (Some "uploads/S0/audio_1.m4a") =
    (Ok "hello",
     [Whisper.Call 1; Whisper.Wait 10000; Whisper.Call 2; Whisper.Wait 20000;
      Whisper.Call 3]) /\
  Whisper.calls (Whisper.transcribeWithWhisper throttled (Some "uploads/S0/audio_1.m4a")).2 =
    [1; 2; 3]%nat.
Proof.
  split.
  - apply (retry_rate_limit_backoff recovering (Some "uploads/S0/audio_1.m4a")
             tooManyRequests tooManyRequests); reflexivity.
  - apply (retry_rate_limit_backoff throttled (Some "uploads/S0/audio_1.m4a")
             tooManyRequests tooManyRequests) with (e3 := tooManyRequests); reflexivity.
Defined.

Lemma retry_transient_backoff_witness :
  Whisper.transcribeWithWhisper unreachable (Some "uploads/S0/audio_1.m4a") =
    (Throw "Transcription failed after 3 attempts: timeout of 300000ms exceeded",
     [Whisper.Call 1; Whisper.Wait 3000; Whisper.Call 2; Whisper.Wait 6000;
      Whisper.Call 3]) /\
  (exists msg,
     Whisper.loopFrom (Whisper.request refused (Some "uploads/S0/audio_1.m4a")) 2
                      (Some socketTimeout) =
       (Throw msg, [Whisper.Call 2])).
Proof.
  split.
  - apply (retry_transient_backoff unreachable (Some "uploads/S0/audio_1.m4a"))
      with (e1 := socketTimeout) (e2 := socketTimeout) (e3 := socketTimeout);
      reflexivity.
  - apply (retry_transient_backoff refused (Some "uploads/S0/audio_1.m4a"))
      with (e := unauthorized); [unfold Whisper.maxRetries; lia|reflexivity..].
Defined.

Lemma status_writes_in_stage_order_witness :
  (files uploadedWorld !! "S0" = Some uploadedRecord /\
   noAudioFiles uploadedRecord = false) /\
  exists res w' evs,
    processAudioPipeline stubEnv "S0" uploadedWorld = (res, w') /\
    log w' = evs /\
    markOf <$> evs =
      [Status "transcribing"; Invoke "transcription"; Status "transcribed";
       Status "reframing"; Invoke "reframing"; Status "reframed";
       Status "generating_audio"; Invoke "synthesis"; Status "completed"] /\
    StronglySorted lt (statusRank <$> statusWrites evs).
Proof.
  assert (H1 : files uploadedWorld !! "S0" = Some uploadedRecord) by reflexivity.
  assert (H2 : noAudioFiles uploadedRecord = false) by (vm_compute; reflexivity).
  split; [by split|].
  destruct (status_writes_in_stage_order stubEnv "S0" uploadedWorld uploadedRecord H1 H2)
    as (res & w' & evs & Hrun & Hlog & Hmarks & Hsorted & _).
  exists res, w', evs. by repeat split.
Defined.

Lemma success_keeps_error_field_witness :
  (files failedWorld !! "S0" = Some failedRecord /\
   noAudioFiles failedRecord = false /\
   failedRecord !! "error" = Some (VStr "Transcription failed: Rate limit exceeded.")) /\
  exists w' s',
    processAudioPipeline stubEnv "S0" failedWorld =
      (Ok (PipelineResult "hello" "HELLO" (VStr "/uploads/a1")), w') /\
    files w' !! "S0" = Some s' /\
    s' !! "status" = Some (VStr "completed") /\
    s' !! "error" = Some (VStr "Transcription failed: Rate limit exceeded.").
Proof.
  assert (H1 : files failedWorld !! "S0" = Some failedRecord) by reflexivity.
  assert (H2 : noAudioFiles failedRecord = false) by (vm_compute; reflexivity).
  assert (H3 : failedRecord !! "error" =
                 Some (VStr "Transcription failed: Rate limit exceeded."))
    by (vm_compute; reflexivity).
  split; [by repeat split|].
  destruct (success_keeps_error_field stubEnv "S0" failedWorld failedRecord
              "hello" "HELLO" "a1" _ H1 H2 H3 eq_refl eq_refl eq_refl)
    as (w' & s' & evs & final & Hrun & Hs' & Hst & Herr & _).
  exists w', s'. by repeat split.
Defined.

Lemma update_merges_and_stamps_witness :
  files uploadedWorld !! "S0" = Some uploadedRecord /\
  files uploadedWorld !! "S9" = None /\
  (exists s' w',
     updateSession stubEnv "S0" {[ "status" := VStr "x" ]} uploadedWorld = (Ok s', w') /\
     getSession "S0" w' = (Ok (Some s'), w') /\
     s' !! "status" = Some (VStr "x") /\
     s' !! "updatedAt" = Some (VIso 1003)) /\
  updateSession stubEnv "S9" {[ "status" := VStr "x" ]} uploadedWorld =
    (Throw "Session not found", uploadedWorld).
Proof.
  assert (H1 : files uploadedWorld !! "S0" = Some uploadedRecord) by reflexivity.
  assert (H2 : files uploadedWorld !! "S9" = None) by reflexivity.
  split; [done|]. split; [done|]. split.
  - destruct (proj1 (update_merges_and_stamps stubEnv "S0" {[ "status" := VStr "x" ]}
                       uploadedWorld) uploadedRecord H1)
      as (s' & w' & Hrun & Hget & Hat & _ & Hst & _).
    exists s', w'. repeat split; [done..|by apply Hst|done].
  - by apply (proj2 (update_merges_and_stamps stubEnv "S9" {[ "status" := VStr "x" ]}
                       uploadedWorld)).
Defined.

Lemma scenario_result_witness :
  exists record w',
    scenario stubEnv "U" sampleFile emptyWorld = (Ok (Json 200 record), w') /\
    record !! "status" = Some (VStr "completed") /\
    record !! "transcript" = Some (VStr "hello") /\
    record !! "reframedText" = Some (VStr "HELLO") /\
    record !! "generatedAudioUrl" = Some (VStr "/uploads/a1").
Proof.
  apply (scenario_result stubEnv "U" sampleFile emptyWorld); reflexivity.
Defined.

Lemma sessions_of_owner_newest_first_witness :
  (forall sessionId s,
     files listedWorld !! sessionId = Some s ->
     s !! "userId" = Some (VStr "U") ->
     is_Some (createdAtMs stubEnv s)) /\
  exists l,
    getUserSessions stubEnv "U" listedWorld = (Ok l, listedWorld) /\
    l ≡ₚ [initialRecord "S2" "U" 1002; initialRecord "S0" "U" 1000] /\
    StronglySorted (notOlder stubEnv) l.
Proof.
  assert (Hdated : forall sessionId s,
     files listedWorld !! sessionId = Some s ->
     s !! "userId" = Some (VStr "U") ->
     is_Some (createdAtMs stubEnv s)).
  { intros sessionId s Hs _. unfold listedWorld in Hs. cbn [files] in Hs.
    repeat (apply lookup_insert_Some in Hs as [[_ <-]|[_ Hs]]; [by eexists|]).
    apply lookup_singleton_Some in Hs as [_ <-]. by eexists. }
  split; [exact Hdated|].
  destruct (sessions_of_owner_newest_first stubEnv "U" listedWorld)
    as (l & Hrun & Hmem & Hperm & Hsorted).
  exists l. split; [done|]. split; [|by apply Hsorted].
  rewrite Hperm. vm_compute. reflexivity.
Defined.

(** * Where the code differs from the claims as worded *)

(** C4 as worded fails: with the stubs of the scenario the session that
    is read back at the end does not have the bare artifact name "a1" as
    its [generatedAudioUrl]; the orchestrator stores it behind the
    [/uploads/] prefix. *)
Lemma scenario_url_is_not_the_bare_name :
  ~ (exists record w',
       scenario stubEnv "U" sampleFile emptyWorld = (Ok (Json 200 record), w') /\
       record !! "status" = Some (VStr "completed") /\
       record !! "transcript" = Some (VStr "hello") /\
       record !! "reframedText" = Some (VStr "HELLO") /\
       record !! "generatedAudioUrl" = Some (VStr "a1")).
Proof.
  intros (record & w' & Hrun & _ & _ & _ & Hurl).
  vm_compute in Hrun. injection Hrun as <- _.
  vm_compute in Hurl. discriminate Hurl.
Qed.

(** C6 as worded fails: two updates of one session whose clock readings
    fall in the same millisecond leave [updatedAt] as it was, not
    strictly greater. *)
Lemma update_in_the_same_millisecond :
  exists before after w1 w2,
    updateSession coarseClockEnv "S0" {[ "status" := VStr "x" ]} uploadedWorld =
      (Ok before, w1) /\
    getSession "S0" w1 = (Ok (Some before), w1) /\
    updateSession coarseClockEnv "S0" {[ "status" := VStr "x" ]} w1 = (Ok after, w2) /\
    getSession "S0" w2 = (Ok (Some after), w2) /\
    after !! "status" = Some (VStr "x") /\
    before !! "updatedAt" = Some (VIso 1002) /\
    after !! "updatedAt" = Some (VIso 1002) /\
    ~ (1002 < 1002).
Proof.
  eexists _, _, _, _.
  split; [apply (updateSession_found _ _ _ _ uploadedRecord); reflexivity|].
  split; [vm_compute; reflexivity|].
  split; [apply updateSession_found; apply lookup_insert_eq|].
  repeat split; try (vm_compute; reflexivity). lia.
Qed.
